(** * FileStructureScanner: the filtering and rendering policy of scan_files.py

    A shallow embedding of [scan_directory] and of its inner function
    [should_ignore], over a model of [pathlib]'s pure POSIX paths and of a
    directory tree.

    Strings are byte strings (UTF-8).  [str.lower] is modelled on the ASCII
    letters; every name the program compares a lowercased name with is ASCII.
    Comparing byte strings lexicographically orders UTF-8 text as Python
    orders it by code point. *)

From Stdlib Require Import String Ascii List Bool Arith NArith Lia.
From Stdlib Require Import Sorting.Sorted Sorting.Permutation.
Import ListNotations.

Open Scope string_scope.
Open Scope list_scope.

(** ** Python string operations *)

Module PyStr.

Definition nl : string := String (ascii_of_nat 10) EmptyString.

Definition lower_char (c : ascii) : ascii :=
  let n := nat_of_ascii c in
  if Nat.leb 65 n && Nat.leb n 90 then ascii_of_nat (n + 32) else c.

(** [s.lower()] *)
Fixpoint lower (s : string) : string :=
  match s with
  | EmptyString => EmptyString
  | String c s' => String (lower_char c) (lower s')
  end.

(** [s.startswith(p)] *)
Definition startswith (s p : string) : bool := String.prefix p s.

(** [s.endswith(suf)] *)
Fixpoint endswith (s suf : string) : bool :=
  if String.eqb s suf then true
  else match s with
       | EmptyString => false
       | String _ s' => endswith s' suf
       end.

(** [p in s] *)
Fixpoint contains (p s : string) : bool :=
  if String.prefix p s then true
  else match s with
       | EmptyString => false
       | String _ s' => contains p s'
       end.

(** [s.rstrip(c)] for a one-character argument: every trailing [c] goes. *)
Fixpoint rstrip (c : ascii) (s : string) : string :=
  match s with
  | EmptyString => EmptyString
  | String a s' =>
      match rstrip c s' with
      | EmptyString => if Ascii.eqb a c then EmptyString else String a EmptyString
      | r => String a r
      end
  end.

(** [s[1:]] *)
Definition drop1 (s : string) : string :=
  match s with
  | EmptyString => EmptyString
  | String _ s' => s'
  end.

(** [s * n] *)
Fixpoint repeat (s : string) (n : nat) : string :=
  match n with
  | 0 => EmptyString
  | S k => s ++ repeat s k
  end.

(** [sep.join(l)] *)
Definition join (sep : string) (l : list string) : string := String.concat sep l.

(** [s.split(c)] for a one-character separator. *)
Fixpoint split (c : ascii) (s : string) : list string :=
  match s with
  | EmptyString => [EmptyString]
  | String a s' =>
      if Ascii.eqb a c then EmptyString :: split c s'
      else match split c s' with
           | [] => [String a EmptyString]
           | w :: ws => String a w :: ws
           end
  end.

(** [x in S] for a set of strings. *)
Definition mem (x : string) (S : list string) : bool :=
  existsb (String.eqb x) S.

End PyStr.

(** ** pathlib's pure POSIX paths *)

Module PurePath.
Import PyStr.

(** A path is its anchor ([""], ["/"] or ["//"]) and the components after
    it; [Path('.')] has no anchor and no component. *)
Record Path : Type := mkPath { anchor : string; tail : list string }.

(** [Path(s)]: the anchor is split off, empty and ["."] components go. *)
Definition splitroot (s : string) : string * string :=
  match s with
  | String "/" (String "/" (String "/" r)) => ("/", String "/" (String "/" r))
  | String "/" (String "/" r) => ("//", r)
  | String "/" r => ("/", r)
  | _ => ("", s)
  end.

Definition keep_component (x : string) : bool :=
  negb (String.eqb x "") && negb (String.eqb x ".").

Definition of_str (s : string) : Path :=
  let '(a, r) := splitroot s in
  mkPath a (filter keep_component (split "/" r)).

(** [str(p)] *)
Definition str (p : Path) : string :=
  match anchor p ++ join "/" (tail p) with
  | EmptyString => "."
  | s => s
  end.

(** [p.name] *)
Definition name (p : Path) : string := last (tail p) "".

(** [p.parent] *)
Definition parent (p : Path) : Path :=
  match tail p with
  | [] => p
  | _ => mkPath (anchor p) (removelast (tail p))
  end.

(** [p / rel] for relative components. *)
Definition joinpath (p : Path) (rel : list string) : Path :=
  mkPath (anchor p) (tail p ++ rel).

Fixpoint list_eqb (l1 l2 : list string) : bool :=
  match l1, l2 with
  | [], [] => true
  | x :: l1', y :: l2' => String.eqb x y && list_eqb l1' l2'
  | _, _ => false
  end.

(** [p == q] *)
Definition eqb (p q : Path) : bool :=
  String.eqb (anchor p) (anchor q) && list_eqb (tail p) (tail q).

Fixpoint strip_prefix (pre l : list string) : option (list string) :=
  match pre, l with
  | [], _ => Some l
  | x :: pre', y :: l' => if String.eqb x y then strip_prefix pre' l' else None
  | _ :: _, [] => None
  end.

(** [p.relative_to(other).parts]; [None] stands for [ValueError]. *)
Definition relative_to (p other : Path) : option (list string) :=
  if String.eqb (anchor p) (anchor other) then strip_prefix (tail other) (tail p)
  else None.

(** [p.parts] *)
Definition parts (p : Path) : list string :=
  match anchor p with
  | EmptyString => tail p
  | a => a :: tail p
  end.

(** The order of tuples of strings: the first differing component decides,
    a proper prefix comes first. *)
Fixpoint parts_ltb (l1 l2 : list string) : bool :=
  match l1, l2 with
  | [], [] => false
  | [], _ :: _ => true
  | _ :: _, [] => false
  | x :: l1', y :: l2' =>
      match String.compare x y with
      | Lt => true
      | Eq => parts_ltb l1' l2'
      | Gt => false
      end
  end.

(** [p < q] *)
Definition ltb (p q : Path) : bool := parts_ltb (parts p) (parts q).

End PurePath.

Import PyStr PurePath.

(** ** The rule set *)

Definition DEFAULT_IGNORE_PATTERNS : list string :=
  [ ".git"; ".svn"; ".hg"; ".bzr";
    "__pycache__"; ".pytest_cache"; "htmlcov";
    ".tox"; ".venv"; "venv"; "env";
    "dist"; "build"; "*.egg-info"; "eggs";
    ".pythonlibs"; "site-packages"; ".local/lib/python*";
    "pip-wheel-metadata"; "poetry.lock";
    "node_modules"; "bower_components"; ".npm";
    ".cache"; ".parcel-cache";
    ".webpack/build/";
    ".rollup-cache/";
    ".vite/build/";
    ".next/cache/";
    ".nuxt/cache/";
    ".output/cache/";
    ".yarn"; ".pnp.*";
    "target/"; "bin/"; ".gradle/cache/";
    ".m2/repository/";
    "classes/"; "out/"; "build/";
    "META-INF/"; "MANIFEST.MF";
    "*.iml"; "*.iws"; "*.ipr";
    ".idea"; ".vscode"; ".vs";
    ".settings"; ".project"; ".classpath";
    "*.swp"; "*.swo"; "*~";
    ".history/"; ".sourcemaps/";
    ".DS_Store"; ".AppleDouble"; ".LSOverride";
    "Thumbs.db"; "desktop.ini"; "$RECYCLE.BIN/";
    "System Volume Information";
    ".Spotlight-V100"; ".Trashes";
    "vendor/"; "bower_components"; "jspm_packages";
    "packages/"; ".serverless/cache/";
    "coverage/"; ".nyc_output/";
    ".sass-cache/";
    "*.css.map"; "*.js.map";
    "*.log"; "logs/"; "log/";
    ".temp/"; ".tmp/"; "tmp/";
    "*.bak"; "*.retry";
    "*.pyc"; "*.pyo"; "*.pyd";
    "*.so"; "*.dll"; "*.dylib";
    "*.class"; "*.o"; "*.ko";
    "*.obj"; "*.exe"; "*.pid";
    "yarn.lock"; "package-lock.json";
    "pnpm-lock.yaml"; "bun.lockb";
    "docs/_build/"; "site/build/"; ".docusaurus/build/";
    ".docker/cache/";
    ".github/actions/"; ".gitlab/runners/"; ".circleci/cache/";
    "coverage/"; ".coverage";
    "coverage.xml"; "nosetests.xml";
    ".hypothesis/cache/";
    ".conda/pkgs/";
    ".jupyter/cache/" ].

Definition library_folders : list string :=
  [ "node_modules"; "vendor"; "bower_components"; "packages";
    "site-packages"; ".pythonlibs"; "jspm_packages";
    ".git";
    "dist"; "build"; "target"; "out"; "bin";
    ".next"; ".nuxt"; ".output";
    "__pycache__"; ".venv"; "venv"; "env";
    ".parcel-cache"; ".webpack"; ".rollup-cache" ].

Definition important_config_files : list string :=
  [ "vite.config.js"; "vite.config.ts";
    "webpack.config.js"; "webpack.config.ts";
    "rollup.config.js"; "rollup.config.ts";
    "next.config.js"; "next.config.ts";
    "svelte.config.js"; "svelte.config.ts";
    "nuxt.config.js"; "nuxt.config.ts";
    "package.json"; "composer.json";
    "cargo.toml"; "go.mod";
    ".env"; ".env.local"; ".env.development";
    ".env.test"; ".env.production";
    "tsconfig.json"; "babel.config.js";
    "jest.config.js"; "postcss.config.js" ].

(** ** should_ignore *)

(** The walk of lines 259-263: from the entry up to the scan root, looking for
    a library folder.  The Python loop stops only when [current] equals the
    root; [fuel] bounds the iterations and [None] is a loop that has not
    stopped within it. *)
Fixpoint inside_library (fuel : nat) (root current : Path) : option bool :=
  match fuel with
  | 0 => None
  | S k =>
      if PurePath.eqb current root then Some false
      else if mem (lower (name current)) library_folders then Some true
      else inside_library k root (parent current)
  end.

(** Lines 286, 290-292 and 296-300: the three conditions that keep a
    configuration file. *)
Definition keep_root_config (depth : nat) (path_name_lower : string) : bool :=
  Nat.eqb depth 1 && mem path_name_lower important_config_files.

Definition keep_subdir_config (depth : nat) (parent_name_lower path_name_lower : string) : bool :=
  Nat.eqb depth 2
  && negb (mem parent_name_lower library_folders)
  && mem path_name_lower important_config_files.

Definition keep_root_pattern (depth : nat) (path_name_lower : string) : bool :=
  Nat.eqb depth 1
  && (startswith path_name_lower "config."
      || endswith path_name_lower ".config.js"
      || endswith path_name_lower ".config.ts"
      || startswith path_name_lower ".env").

(** The body of the generator of lines 304-309, for one pattern. *)
Definition pattern_hits (path_str pattern : string) : bool :=
  contains pattern path_str
  || endswith path_str (rstrip "/" pattern)
  || (startswith pattern "*." && endswith path_str (drop1 pattern)).

(** [should_ignore(path)], closed over [start_path] and [ignore_patterns].
    [Some true] is an ignored path; [None] is a walk that does not stop. *)
Definition should_ignore (start_path : string) (ignore_patterns : list string)
    (path : Path) : option bool :=
  let path_str := str path in
  let path_name_lower := lower (name path) in
  match relative_to path (of_str start_path) with
  | None => Some true
  | Some rel =>
      let depth := length rel in
      if mem path_name_lower library_folders then Some (Nat.ltb 1 depth)
      else
        match inside_library (S (length (tail path))) (of_str start_path) path with
        | None => None
        | Some true => Some true
        | Some false =>
            if keep_root_config depth path_name_lower then Some false
            else if keep_subdir_config depth (lower (name (parent path))) path_name_lower
            then Some false
            else if keep_root_pattern depth path_name_lower then Some false
            else Some (existsb (pattern_hits path_str) ignore_patterns)
        end
  end.

(** ** The directory tree and its enumeration *)

(** What lies below the scan root: files and directories with their names. *)
#[warnings="-register-all"]
Inductive node : Type :=
| File (n : string)
| Dir (n : string) (children : list node).

(** Induction on trees, with the hypothesis on every child. *)
Fixpoint node_forall_ind (P : node -> Prop)
    (HF : forall n, P (File n))
    (HD : forall n children, Forall P children -> P (Dir n children))
    (t : node) : P t :=
  match t with
  | File n => HF n
  | Dir n children =>
      HD n children
        ((fix go (l : list node) : Forall P l :=
            match l with
            | [] => Forall_nil P
            | c :: l' => Forall_cons c (node_forall_ind P HF HD c) (go l')
            end) children)
  end.

(** An enumerated path with the answer of [path.is_dir()]. *)
Definition entry : Type := (Path * bool)%type.

(** The components below the root of every node of a tree, parents first. *)
Fixpoint walk (prefix : list string) (t : node) : list (list string * bool) :=
  match t with
  | File n => [(prefix ++ [n], false)]
  | Dir n children =>
      (prefix ++ [n], true) :: flat_map (walk (prefix ++ [n])) children
  end.

(** [Path(start_path).rglob('*')]: every node below the root, as a path that
    extends the root's. *)
Definition rglob (root : Path) (fs : list node) : list entry :=
  map (fun e => (joinpath root (fst e), snd e)) (flat_map (walk []) fs).

(** [sorted]: a stable sort that only asks [<] of the elements. *)
Section Sorted.

Context {A : Type} (lt : A -> A -> bool).

Fixpoint insert_sorted (x : A) (l : list A) : list A :=
  match l with
  | [] => [x]
  | y :: l' => if lt y x then y :: insert_sorted x l' else x :: y :: l'
  end.

Definition sorted (l : list A) : list A := fold_right insert_sorted [] l.

End Sorted.

(** [<] on the enumerated paths. *)
Definition entry_ltb (e1 e2 : entry) : bool := PurePath.ltb (fst e1) (fst e2).

(** ** scan_directory *)

Definition bind {A B : Type} (m : option A) (k : A -> option B) : option B :=
  match m with
  | Some a => k a
  | None => None
  end.

Notation "x <- m ;; k" := (bind m (fun x => k))
  (at level 61, m at next level, right associativity).

(** The body of the loop of lines 323-337; [f] is what the file holds so
    far, [None] an exception or a walk that does not stop. *)
Definition write_entry (start_path : string) (ignore_patterns : list string)
    (dir_marker file_marker : string) (f : string) (e : entry) : option string :=
  let path := fst e in
  ignored <- should_ignore start_path ignore_patterns path ;;
  if (ignored : bool) then Some f
  else
    rel_path <- relative_to path (of_str start_path) ;;
    let depth := length rel_path - 1 in
    let indent := repeat "    " depth in
    let marker := if snd e then dir_marker else file_marker in
    Some (f ++ indent ++ marker ++ last rel_path "" ++ nl)%string.

Fixpoint write_entries (start_path : string) (ignore_patterns : list string)
    (dir_marker file_marker : string) (f : string) (l : list entry) : option string :=
  match l with
  | [] => Some f
  | e :: l' =>
      f' <- write_entry start_path ignore_patterns dir_marker file_marker f e ;;
      write_entries start_path ignore_patterns dir_marker file_marker f' l'
  end.

(** [scan_directory(start_path, output_file, ignore_patterns, use_emoji)] on
    the tree [fs] below [start_path]: the text written to the output file. *)
Definition scan_directory (start_path : string) (fs : list node)
    (ignore_patterns : option (list string)) (use_emoji : bool) : option string :=
  let ignore_patterns :=
    match ignore_patterns with
    | None => DEFAULT_IGNORE_PATTERNS
    | Some l => l
    end in
  let dir_marker := if use_emoji then "📁 " else "[DIR] " in
  let file_marker := if use_emoji then "📄 " else "[FILE] " in
  let f := "" in
  let f := (f ++ "File structure for: " ++ start_path ++ nl)%string in
  let f := (f ++ repeat "=" 50 ++ nl ++ nl)%string in
  write_entries start_path ignore_patterns dir_marker file_marker f
    (sorted entry_ltb (rglob (of_str start_path) fs)).


(** ** Vocabulary of the properties *)

(** A name that, lowercased, is one of [library_folders]. *)
Definition is_library (n : string) : bool := mem (lower n) library_folders.

(** An entry that [scan_directory] writes a line for. *)
Definition shown (start_path : string) (ignore_patterns : list string) (e : entry) : bool :=
  match should_ignore start_path ignore_patterns (fst e) with
  | Some false => true
  | _ => false
  end.

(** The entries that get a line, in the order of the traversal. *)
Definition emitted (start_path : string) (ignore_patterns : list string)
    (fs : list node) : list entry :=
  filter (shown start_path ignore_patterns)
    (sorted entry_ltb (rglob (of_str start_path) fs)).

(** The components of a path below the scan root, and their number. *)
Definition below (root p : Path) : list string :=
  skipn (length (tail root)) (tail p).

Definition depth_below (root p : Path) : nat := length (below root p).

Definition fifty_equals : string :=
  "==================================================".

Definition header (start_path : string) : string :=
  ("File structure for: " ++ start_path ++ nl ++ fifty_equals ++ nl ++ nl)%string.

Fixpoint spaces (n : nat) : string :=
  match n with
  | 0 => EmptyString
  | S k => String " " (spaces k)
  end.

Definition marker_of (use_emoji is_dir : bool) : string :=
  match use_emoji, is_dir with
  | true, true => "📁 "
  | true, false => "📄 "
  | false, true => "[DIR] "
  | false, false => "[FILE] "
  end.

(** The line of an entry as the output format describes it. *)
Definition line_of (start_path : string) (use_emoji : bool) (e : entry) : string :=
  (spaces (4 * (depth_below (of_str start_path) (fst e) - 1))
   ++ marker_of use_emoji (snd e) ++ name (fst e) ++ nl)%string.

(** The text of a sequence of lines. *)
Definition lines (l : list string) : string := fold_right String.append "" l.

(** The three ways a pattern can hit a path string. *)
Definition is_substring (p s : string) : Prop :=
  exists pre post : string, s = (pre ++ p ++ post)%string.

Definition is_prefix (p s : string) : Prop :=
  exists post : string, s = (p ++ post)%string.

Definition is_suffix (suf s : string) : Prop :=
  exists pre : string, s = (pre ++ suf)%string.

Definition glob_suffix (p s : string) : Prop :=
  exists ext : string, p = ("*." ++ ext)%string /\ is_suffix ("." ++ ext)%string s.

Definition hits (p s : string) : Prop :=
  is_substring p s \/ is_suffix (rstrip "/" p) s \/ glob_suffix p s.

(** The rules that come before the patterns, on the components below the
    root: an entry they show, and an entry they hide. *)
Definition parent_name (rel : list string) : string := last (removelast rel) "".

Definition kept_config (rel : list string) : bool :=
  let n := lower (last rel "") in
  keep_root_config (length rel) n
  || keep_subdir_config (length rel) (lower (parent_name rel)) n
  || keep_root_pattern (length rel) n.

Definition shown_by_name (rel : list string) : bool :=
  if is_library (last rel "") then Nat.leb (length rel) 1
  else negb (existsb is_library rel) && kept_config rel.

Definition hidden_by_name (rel : list string) : bool :=
  if is_library (last rel "") then Nat.ltb 1 (length rel)
  else existsb is_library rel.

(** The orders the claims speak of. *)
Definition parts_lt (a b : list string) : Prop := parts_ltb a b = true.

Definition str_lt (a b : string) : Prop := String.ltb a b = true.

(** The order [sorted] leaves two consecutive entries in. *)
Definition entry_le (e1 e2 : entry) : Prop := entry_ltb e2 e1 = false.

(** [<] on the components below the root, with the directory flag along. *)
Definition rel_ltb (e1 e2 : list string * bool) : bool := parts_ltb (fst e1) (fst e2).

(** [x] stands before [y] in [l]. *)
Definition precedes {A : Type} (x y : A) (l : list A) : Prop :=
  exists l1 l2 l3 : list A, l = l1 ++ x :: l2 ++ y :: l3.

(** Sibling names are pairwise distinct, at every level of the tree. *)
Definition node_name (t : node) : string :=
  match t with
  | File n => n
  | Dir n _ => n
  end.

Fixpoint distinct (l : list string) : bool :=
  match l with
  | [] => true
  | x :: l' => negb (mem x l') && distinct l'
  end.

Fixpoint unique_names (t : node) : bool :=
  match t with
  | File _ => true
  | Dir _ children =>
      distinct (map node_name children) && forallb unique_names children
  end.

Definition unique_forest (fs : list node) : bool :=
  distinct (map node_name fs) && forallb unique_names fs.

(** ** The command line *)






(** * Facts about the string operations *)

Section StringFacts.

Lemma str_app_nil_r (s : string) : (s ++ "")%string = s.
Proof. induction s as [|a s IH]; simpl; [reflexivity | now rewrite IH]. Qed.

Lemma str_app_assoc (s1 s2 s3 : string) :
  ((s1 ++ s2) ++ s3)%string = (s1 ++ s2 ++ s3)%string.
Proof. induction s1 as [|a s1 IH]; simpl; [reflexivity | now rewrite IH]. Qed.

Lemma str_app_empty (s1 s2 : string) :
  (s1 ++ s2)%string = "" -> s1 = "" /\ s2 = "".
Proof. destruct s1; simpl; [auto | discriminate]. Qed.

Lemma prefix_spec (p s : string) :
  String.prefix p s = true <-> exists post : string, s = (p ++ post)%string.
Proof.
  revert s; induction p as [|a p IH]; intros s; simpl.
  - destruct s; split; intros _; try reflexivity; eexists; reflexivity.
  - destruct s as [|b s]; simpl.
    + split; [discriminate | intros [post H]; discriminate].
    + destruct (ascii_dec a b) as [->|Hne].
      * rewrite IH. split; intros [post H]; exists post; congruence.
      * split; [discriminate | intros [post H]; congruence].
Qed.

Lemma endswith_spec (s suf : string) : endswith s suf = true <-> is_suffix suf s.
Proof.
  unfold is_suffix. induction s as [|a s IH].
  - destruct suf as [|b suf]; simpl; split; intros H; trivial.
    + exists ""; reflexivity.
    + discriminate H.
    + destruct H as [pre H]. symmetry in H. apply str_app_empty in H.
      destruct H; discriminate.
  - cbn [endswith]. destruct (String.eqb_spec (String a s) suf) as [<-|Hne]; split; intros H; trivial.
    + exists ""; reflexivity.
    + apply IH in H. destruct H as [pre ->]. exists (String a pre); reflexivity.
    + apply IH. destruct H as [[|b pre] H]; simpl in H.
      * congruence.
      * exists pre; congruence.
Qed.

Lemma contains_spec (p s : string) : contains p s = true <-> is_substring p s.
Proof.
  unfold is_substring. induction s as [|a s IH].
  - destruct p as [|b p]; simpl; split; intros H; trivial.
    + exists "", ""; reflexivity.
    + discriminate H.
    + destruct H as (pre & post & H). symmetry in H.
      apply str_app_empty in H. destruct H as [_ H]. discriminate H.
  - cbn [contains]. destruct (String.prefix p (String a s)) eqn:E; split; intros H; trivial.
    + apply prefix_spec in E. destruct E as [post E]. exists "", post; exact E.
    + apply IH in H. destruct H as (pre & post & ->).
      exists (String a pre), post; reflexivity.
    + apply IH. destruct H as ([|b pre] & post & H); simpl in H.
      * assert (String.prefix p (String a s) = true)
          by (apply prefix_spec; exists post; exact H).
        congruence.
      * exists pre, post; congruence.
Qed.

Lemma mem_spec (x : string) (S : list string) : mem x S = true <-> In x S.
Proof.
  unfold mem. rewrite existsb_exists. split.
  - intros (y & Hy & E). apply String.eqb_eq in E. now subst.
  - intros H. exists x. split; [assumption | apply String.eqb_refl].
Qed.

Lemma repeat_spaces (n : nat) : repeat "    " n = spaces (4 * n).
Proof.
  induction n as [|n IH]; [reflexivity|].
  replace (4 * S n) with (S (S (S (S (4 * n))))) by lia.
  simpl. now rewrite IH.
Qed.

Lemma repeat_equals : repeat "=" 50 = fifty_equals.
Proof. reflexivity. Qed.

Lemma pattern_hits_spec (s p : string) : pattern_hits s p = true <-> hits p s.
Proof.
  unfold pattern_hits, hits, glob_suffix, startswith.
  rewrite !orb_true_iff, andb_true_iff, contains_spec, !endswith_spec, prefix_spec.
  split.
  - intros [[H | H] | H]; [left; exact H | right; left; exact H | right; right].
    destruct H as [[ext ->] H]. exists ext. split; [reflexivity | exact H].
  - intros [H | [H | H]]; [left; left; exact H | left; right; exact H | right].
    destruct H as (ext & -> & H). split; [exists ext; reflexivity | exact H].
Qed.

Lemma existsb_hits (s : string) (pats : list string) :
  existsb (pattern_hits s) pats = true <-> exists p : string, In p pats /\ hits p s.
Proof.
  rewrite existsb_exists.
  split; intros (p & Hin & H); exists p; (split; [exact Hin|]);
    now apply pattern_hits_spec.
Qed.

End StringFacts.

(** * Facts about paths and about the walk to the root *)

Section PathFacts.

Lemma list_eqb_spec (l1 l2 : list string) : list_eqb l1 l2 = true <-> l1 = l2.
Proof.
  revert l2; induction l1 as [|x l1 IH]; intros [|y l2]; simpl;
    try (split; [discriminate | congruence]); [tauto|].
  rewrite andb_true_iff, String.eqb_eq, IH. split; [intros []|intros [=]]; subst; auto.
Qed.

Lemma path_eqb_spec (p q : Path) : PurePath.eqb p q = true <-> p = q.
Proof.
  destruct p as [a t], q as [b u]. unfold PurePath.eqb; simpl.
  rewrite andb_true_iff, String.eqb_eq, list_eqb_spec.
  split; [intros []|intros [=]]; subst; auto.
Qed.

Lemma strip_prefix_app (pre l : list string) : strip_prefix pre (pre ++ l) = Some l.
Proof.
  induction pre as [|x pre IH]; simpl; [now destruct l|].
  now rewrite String.eqb_refl.
Qed.

Lemma strip_prefix_Some (pre l r : list string) :
  strip_prefix pre l = Some r -> l = pre ++ r.
Proof.
  revert l; induction pre as [|x pre IH]; intros l H; simpl in *.
  - destruct l; congruence.
  - destruct l as [|y l]; [discriminate|].
    destruct (String.eqb_spec x y) as [->|]; [|discriminate].
    now rewrite (IH _ H).
Qed.

Lemma relative_to_joinpath (root : Path) (rel : list string) :
  relative_to (joinpath root rel) root = Some rel.
Proof.
  unfold relative_to, joinpath; simpl.
  rewrite String.eqb_refl. apply strip_prefix_app.
Qed.

Lemma relative_to_Some (p root : Path) (rel : list string) :
  relative_to p root = Some rel -> p = joinpath root rel.
Proof.
  unfold relative_to, joinpath. destruct p as [a t]; simpl.
  destruct (String.eqb_spec a (anchor root)) as [->|]; [|discriminate].
  intros H. now rewrite (strip_prefix_Some _ _ _ H).
Qed.

Lemma joinpath_eqb_root (root : Path) (rel : list string) :
  PurePath.eqb (joinpath root rel) root = match rel with [] => true | _ => false end.
Proof.
  destruct rel as [|x rel].
  - apply path_eqb_spec. destruct root; unfold joinpath; simpl. now rewrite app_nil_r.
  - apply not_true_is_false. intros H. apply path_eqb_spec in H.
    apply (f_equal (fun p => length (tail p))) in H. simpl in H.
    rewrite length_app in H. simpl in H. lia.
Qed.

Lemma last_app_ne (l rel : list string) (d : string) :
  rel <> [] -> last (l ++ rel) d = last rel d.
Proof.
  intros Hne. induction l as [|x l IH]; [reflexivity|].
  simpl. destruct (l ++ rel) eqn:E; [|exact IH].
  apply app_eq_nil in E. destruct E; contradiction.
Qed.

Lemma name_joinpath (root : Path) (rel : list string) :
  rel <> [] -> name (joinpath root rel) = last rel "".
Proof. intros H. unfold name, joinpath; simpl. now apply last_app_ne. Qed.

Lemma parent_joinpath (root : Path) (rel : list string) :
  rel <> [] -> parent (joinpath root rel) = joinpath root (removelast rel).
Proof.
  intros H. unfold parent, joinpath; simpl.
  destruct (tail root ++ rel) eqn:E.
  - apply app_eq_nil in E. destruct E; contradiction.
  - rewrite <- E. now rewrite removelast_app.
Qed.

Lemma below_joinpath (root : Path) (rel : list string) :
  below root (joinpath root rel) = rel.
Proof.
  unfold below, joinpath; simpl.
  rewrite skipn_app, skipn_all, Nat.sub_diag. reflexivity.
Qed.

Lemma inside_library_joinpath (root : Path) (rel : list string) (fuel : nat) :
  length rel < fuel ->
  inside_library fuel root (joinpath root rel) = Some (existsb is_library rel).
Proof.
  revert fuel. induction rel as [|x rel IH] using rev_ind; intros fuel Hlt.
  - destruct fuel as [|k]; [lia|]. simpl. now rewrite joinpath_eqb_root.
  - destruct fuel as [|k]; [lia|]. rewrite length_app in Hlt. simpl in Hlt.
    cbn [inside_library]. rewrite joinpath_eqb_root.
    destruct (rel ++ [x]) eqn:E; [now destruct rel|]. rewrite <- E.
    assert (Hne : rel ++ [x] <> []) by (rewrite E; discriminate).
    rewrite name_joinpath, last_last, existsb_app by exact Hne.
    cbn [existsb]. fold (is_library x). destruct (is_library x).
    + now rewrite !orb_true_r.
    + rewrite parent_joinpath, removelast_last by exact Hne.
      rewrite IH by lia. now rewrite !orb_false_r.
Qed.

(** The classification of an entry below the root, rule by rule. *)
Lemma should_ignore_joinpath (start_path : string) (pats rel : list string) :
  rel <> [] ->
  should_ignore start_path pats (joinpath (of_str start_path) rel) =
  Some (if is_library (last rel "") then Nat.ltb 1 (length rel)
        else if existsb is_library rel then true
        else if kept_config rel then false
        else existsb (pattern_hits (str (joinpath (of_str start_path) rel))) pats).
Proof.
  intros Hne. unfold should_ignore.
  rewrite relative_to_joinpath, name_joinpath by exact Hne.
  fold (is_library (last rel "")). destruct (is_library (last rel "")); [reflexivity|].
  rewrite inside_library_joinpath
    by (unfold joinpath; simpl; rewrite length_app; lia).
  destruct (existsb is_library rel); [reflexivity|].
  assert (Hpar : keep_subdir_config (length rel)
                   (lower (name (parent (joinpath (of_str start_path) rel))))
                   (lower (last rel ""))
                 = keep_subdir_config (length rel) (lower (parent_name rel))
                     (lower (last rel ""))).
  { unfold keep_subdir_config.
    destruct (Nat.eqb_spec (length rel) 2) as [H2|]; [|reflexivity].
    rewrite parent_joinpath by exact Hne.
    destruct rel as [|a [|b [|c rel]]]; try discriminate H2.
    simpl removelast. rewrite name_joinpath by discriminate. reflexivity. }
  rewrite Hpar. clear Hpar. unfold kept_config.
  destruct (keep_root_config _ _); [reflexivity|].
  destruct (keep_subdir_config _ _ _); [reflexivity|].
  destruct (keep_root_pattern _ _); reflexivity.
Qed.

(** The walk to the root always stops: [should_ignore] answers on every
    path. *)
Lemma should_ignore_total (start_path : string) (pats : list string) (p : Path) :
  exists b : bool, should_ignore start_path pats p = Some b.
Proof.
  destruct (relative_to p (of_str start_path)) as [rel|] eqn:E.
  - apply relative_to_Some in E. subst p. destruct rel as [|x rel].
    + unfold should_ignore. rewrite relative_to_joinpath.
      destruct (mem _ library_folders); [eauto|].
      cbn [inside_library]. rewrite joinpath_eqb_root.
      repeat match goal with |- context [if ?c then _ else _] => destruct c end; eauto.
    + rewrite should_ignore_joinpath by discriminate. eauto.
  - unfold should_ignore. rewrite E. eauto.
Qed.

End PathFacts.

(** * Facts about the order of paths *)

Section OrderFacts.

Lemma ascii_compare_refl (c : ascii) : Ascii.compare c c = Eq.
Proof. unfold Ascii.compare. apply N.compare_refl. Qed.

Lemma ascii_compare_lt_trans (a b c : ascii) :
  Ascii.compare a b = Lt -> Ascii.compare b c = Lt -> Ascii.compare a c = Lt.
Proof.
  unfold Ascii.compare. rewrite !N.compare_lt_iff. apply N.lt_trans.
Qed.

Lemma string_compare_refl (s : string) : String.compare s s = Eq.
Proof.
  induction s as [|a s IH]; simpl; [reflexivity|].
  now rewrite ascii_compare_refl.
Qed.

Lemma string_compare_lt_trans (s1 s2 s3 : string) :
  String.compare s1 s2 = Lt -> String.compare s2 s3 = Lt -> String.compare s1 s3 = Lt.
Proof.
  revert s2 s3. induction s1 as [|a s1 IH]; intros [|b s2] [|c s3]; simpl;
    try discriminate; try reflexivity.
  destruct (Ascii.compare a b) eqn:Eab; try discriminate;
    destruct (Ascii.compare b c) eqn:Ebc; try discriminate; intros H1 H2.
  - apply Ascii.compare_eq_iff in Eab, Ebc. subst.
    rewrite ascii_compare_refl. eapply IH; eassumption.
  - apply Ascii.compare_eq_iff in Eab. subst. now rewrite Ebc.
  - apply Ascii.compare_eq_iff in Ebc. subst. now rewrite Eab.
  - now rewrite (ascii_compare_lt_trans _ _ _ Eab Ebc).
Qed.

Lemma parts_ltb_irrefl (a : list string) : parts_ltb a a = false.
Proof.
  induction a as [|x a IH]; simpl; [reflexivity|].
  now rewrite string_compare_refl.
Qed.

Lemma parts_ltb_trans (a b c : list string) :
  parts_ltb a b = true -> parts_ltb b c = true -> parts_ltb a c = true.
Proof.
  revert b c. induction a as [|x a IH]; intros [|y b] [|z c]; simpl;
    try discriminate; try reflexivity.
  destruct (String.compare x y) eqn:Exy; try discriminate;
    destruct (String.compare y z) eqn:Eyz; try discriminate; intros H1 H2.
  - apply String.compare_eq_iff in Exy, Eyz. subst.
    rewrite string_compare_refl. eapply IH; eassumption.
  - apply String.compare_eq_iff in Exy. subst. now rewrite Eyz.
  - apply String.compare_eq_iff in Eyz. subst. now rewrite Exy.
  - now rewrite (string_compare_lt_trans _ _ _ Exy Eyz).
Qed.

Lemma parts_ltb_trichotomy (a b : list string) :
  parts_ltb a b = false -> parts_ltb b a = true \/ a = b.
Proof.
  revert b. induction a as [|x a IH]; intros [|y b]; simpl; auto; try discriminate.
  rewrite (String.compare_antisym y x).
  destruct (String.compare x y) eqn:E; simpl; auto; try discriminate.
  apply String.compare_eq_iff in E. subst y. intros H.
  destruct (IH _ H) as [Hlt | ->]; auto.
Qed.

Lemma parts_ltb_asym (a b : list string) :
  parts_ltb a b = true -> parts_ltb b a = false.
Proof.
  intros H. destruct (parts_ltb b a) eqn:E; [|reflexivity].
  pose proof (parts_ltb_trans _ _ _ H E) as C.
  rewrite parts_ltb_irrefl in C. discriminate.
Qed.

Lemma parts_geb_trans (a b c : list string) :
  parts_ltb b a = false -> parts_ltb c b = false -> parts_ltb c a = false.
Proof.
  intros Hab Hbc. destruct (parts_ltb c a) eqn:E; [|reflexivity].
  destruct (parts_ltb_trichotomy _ _ Hbc) as [Hlt | ->].
  - rewrite (parts_ltb_trans _ _ _ Hlt E) in Hab. discriminate.
  - congruence.
Qed.

Lemma parts_ltb_app (pre a b : list string) :
  parts_ltb (pre ++ a) (pre ++ b) = parts_ltb a b.
Proof.
  induction pre as [|x pre IH]; simpl; [reflexivity|].
  now rewrite string_compare_refl.
Qed.

Lemma parts_ltb_prefix (a : list string) (x : string) (r : list string) :
  parts_ltb a (a ++ x :: r) = true.
Proof.
  rewrite <- (app_nil_r a) at 1. now rewrite parts_ltb_app.
Qed.

Lemma parts_joinpath (root : Path) (rel : list string) :
  parts (joinpath root rel) = parts root ++ rel.
Proof. unfold parts, joinpath; simpl. now destruct (anchor root). Qed.

Lemma ltb_joinpath (root : Path) (a b : list string) :
  PurePath.ltb (joinpath root a) (joinpath root b) = parts_ltb a b.
Proof. unfold PurePath.ltb. now rewrite !parts_joinpath, parts_ltb_app. Qed.

End OrderFacts.

(** * Facts about [sorted] *)

Section SortFacts.

Lemma entry_le_trans (a b c : entry) : entry_le a b -> entry_le b c -> entry_le a c.
Proof. unfold entry_le, entry_ltb, PurePath.ltb. apply parts_geb_trans. Qed.

Lemma insert_sorted_perm {A : Type} (lt : A -> A -> bool) (x : A) (l : list A) :
  Permutation (insert_sorted lt x l) (x :: l).
Proof.
  induction l as [|y l IH]; simpl; [apply Permutation_refl|].
  destruct (lt y x); [|apply Permutation_refl].
  eapply perm_trans; [apply perm_skip, IH | apply perm_swap].
Qed.

Lemma sorted_perm {A : Type} (lt : A -> A -> bool) (l : list A) :
  Permutation (sorted lt l) l.
Proof.
  induction l as [|x l IH]; simpl; [apply perm_nil|].
  eapply perm_trans; [apply insert_sorted_perm | apply perm_skip, IH].
Qed.

(** Sorting commutes with a map that preserves the order. *)
Lemma sorted_map {A B : Type} (ltA : A -> A -> bool) (ltB : B -> B -> bool)
    (f : A -> B) (l : list A) :
  (forall x y, ltB (f x) (f y) = ltA x y) ->
  sorted ltB (map f l) = map f (sorted ltA l).
Proof.
  intros Hf. induction l as [|x l IH]; simpl; [reflexivity|].
  rewrite IH. generalize (sorted ltA l). intros s.
  induction s as [|y s IHs]; simpl; [reflexivity|].
  rewrite Hf. destruct (ltA y x); simpl; [now rewrite IHs | reflexivity].
Qed.

Lemma insert_sorted_sorted (e : entry) (l : list entry) :
  StronglySorted entry_le l -> StronglySorted entry_le (insert_sorted entry_ltb e l).
Proof.
  induction 1 as [|e' l Hs IH Hall]; simpl.
  - constructor; constructor.
  - destruct (entry_ltb e' e) eqn:E.
    + constructor; [exact IH|].
      apply Forall_forall. intros x Hx.
      apply (Permutation_in _ (insert_sorted_perm _ e l)) in Hx.
      destruct Hx as [<- | Hx].
      * unfold entry_le, entry_ltb, PurePath.ltb in *. now apply parts_ltb_asym.
      * rewrite Forall_forall in Hall. now apply Hall.
    + constructor; [constructor; assumption|].
      constructor; [exact E|].
      apply Forall_forall. intros x Hx. rewrite Forall_forall in Hall.
      apply (entry_le_trans _ e'); [exact E | now apply Hall].
Qed.

Lemma sorted_sorted (l : list entry) : StronglySorted entry_le (sorted entry_ltb l).
Proof.
  induction l as [|e l IH]; simpl; [constructor|].
  now apply insert_sorted_sorted.
Qed.

(** The traversal of a tree, on the components below the root. *)
Lemma sorted_rglob (root : Path) (fs : list node) :
  sorted entry_ltb (rglob root fs)
  = map (fun e => (joinpath root (fst e), snd e))
      (sorted rel_ltb (flat_map (walk []) fs)).
Proof.
  unfold rglob. apply sorted_map. intros x y.
  unfold entry_ltb, rel_ltb. cbn [fst]. apply ltb_joinpath.
Qed.

Lemma filter_sorted {A : Type} (R : A -> A -> Prop) (f : A -> bool) (l : list A) :
  StronglySorted R l -> StronglySorted R (filter f l).
Proof.
  induction 1 as [|a l Hs IH Hall]; simpl; [constructor|].
  destruct (f a); [|exact IH].
  constructor; [exact IH|].
  apply Forall_forall. intros x Hx. apply filter_In in Hx.
  rewrite Forall_forall in Hall. now apply Hall.
Qed.

Lemma filter_map_nodup {A B : Type} (g : A -> B) (f : A -> bool) (l : list A) :
  NoDup (map g l) -> NoDup (map g (filter f l)).
Proof.
  induction l as [|a l IH]; simpl; [trivial|].
  intros H. inversion H as [|? ? Hnotin Hnd]; subst.
  destruct (f a); [|now apply IH].
  simpl. constructor; [|now apply IH].
  intros Hin. apply Hnotin. apply in_map_iff in Hin.
  destruct Hin as (x & Hx & Hin). apply filter_In in Hin.
  apply in_map_iff. exists x. tauto.
Qed.

(** A sorted list without repetition is strictly sorted. *)
Lemma sorted_strict {A B C : Type} (R : A -> A -> Prop) (R' : C -> C -> Prop)
    (key : A -> B) (g : A -> C) (l : list A) :
  StronglySorted R l ->
  NoDup (map key l) ->
  (forall x y, In x l -> In y l -> R x y -> key x <> key y -> R' (g x) (g y)) ->
  StronglySorted R' (map g l).
Proof.
  induction 1 as [|a l Hs IH Hall]; simpl; intros Hnd Hstep; [constructor|].
  inversion Hnd as [|? ? Hnotin Hnd']; subst.
  constructor.
  - apply IH; [exact Hnd'|]. intros x y Hx Hy. apply Hstep; now right.
  - apply Forall_forall. intros c Hc. apply in_map_iff in Hc.
    destruct Hc as (y & <- & Hy). rewrite Forall_forall in Hall.
    apply Hstep; [now left | now right | now apply Hall |].
    intros E. apply Hnotin. rewrite E. now apply in_map.
Qed.

(** In a sorted list an element that is strictly below another stands
    before it. *)
Lemma sorted_precedes {A : Type} (R : A -> A -> Prop) (l : list A) (x y : A) :
  StronglySorted R l -> In x l -> In y l -> ~ R y x -> x <> y -> precedes x y l.
Proof.
  intros Hs Hx Hy Hnot Hne.
  apply in_split in Hx. destruct Hx as (l1 & r & ->).
  apply in_app_or in Hy. destruct Hy as [Hy | [Hy | Hy]].
  - exfalso. apply Hnot. clear Hnot Hne.
    induction l1 as [|a l1 IH]; [destruct Hy|].
    simpl in Hs. apply StronglySorted_inv in Hs. destruct Hs as [Hs Hall].
    destruct Hy as [-> | Hy]; [|now apply IH].
    rewrite Forall_forall in Hall. apply Hall. apply in_or_app. right. now left.
  - contradiction.
  - apply in_split in Hy. destruct Hy as (l2 & l3 & ->).
    now exists l1, l2, l3.
Qed.

End SortFacts.

(** * Facts about the enumeration of a tree *)

Section TreeFacts.

Lemma walk_shape (t : node) :
  forall (prefix p : list string) (d : bool),
    In (p, d) (walk prefix t) ->
    exists rest : list string, p = prefix ++ node_name t :: rest.
Proof.
  induction t as [n | n children IH] using node_forall_ind; intros prefix p d Hin.
  - destruct Hin as [[= <- _] | []]. now exists [].
  - cbn [walk] in Hin. destruct Hin as [[= <- _] | Hin]; [now exists []|].
    apply in_flat_map in Hin. destruct Hin as (c & Hc & Hin).
    rewrite Forall_forall in IH. destruct (IH c Hc _ _ _ Hin) as [rest ->].
    exists (node_name c :: rest). now rewrite <- app_assoc.
Qed.

Lemma distinct_cons (x : string) (l : list string) :
  distinct (x :: l) = true <-> ~ In x l /\ distinct l = true.
Proof.
  simpl. rewrite andb_true_iff, negb_true_iff, <- mem_spec.
  destruct (mem x l); intuition congruence.
Qed.

Lemma forest_nodup (children : list node) :
  distinct (map node_name children) = true ->
  Forall (fun c => forall prefix, NoDup (map fst (walk prefix c))) children ->
  forall prefix, NoDup (map fst (flat_map (walk prefix) children)).
Proof.
  induction children as [|c children IH]; intros Hd Hall prefix; [constructor|].
  cbn [map] in Hd. apply distinct_cons in Hd. destruct Hd as [Hnotin Hd].
  inversion Hall as [|? ? Hc Hrest]; subst.
  cbn [flat_map]. rewrite map_app. apply NoDup_app; [apply Hc | now apply IH |].
  intros p Hp Hq. apply Hnotin.
  apply in_map_iff in Hp. destruct Hp as ([p1 d1] & <- & Hp).
  apply in_map_iff in Hq. destruct Hq as ([p2 d2] & E & Hq).
  simpl in E. subst p2.
  apply walk_shape in Hp. destruct Hp as [r1 E1].
  apply in_flat_map in Hq. destruct Hq as (c' & Hc' & Hq).
  apply walk_shape in Hq. destruct Hq as [r2 E2].
  rewrite E1 in E2. apply app_inv_head in E2. injection E2 as E2 _.
  rewrite E2. now apply in_map.
Qed.

Lemma walk_nodup (t : node) :
  unique_names t = true -> forall prefix, NoDup (map fst (walk prefix t)).
Proof.
  induction t as [n | n children IH] using node_forall_ind; intros Hu prefix.
  - simpl. constructor; [intros [] | constructor].
  - cbn [unique_names] in Hu. apply andb_true_iff in Hu. destruct Hu as [Hd Hu].
    cbn [walk map fst]. constructor.
    + intros Hin. apply in_map_iff in Hin. destruct Hin as ([p d] & E & Hin).
      simpl in E. subst p. apply in_flat_map in Hin.
      destruct Hin as (c & _ & Hin). apply walk_shape in Hin.
      destruct Hin as [rest E]. apply (f_equal (@length string)) in E.
      rewrite !length_app in E. simpl in E. lia.
    + apply forest_nodup; [exact Hd|].
      rewrite Forall_forall in *. intros c Hc. apply IH; [exact Hc|].
      rewrite forallb_forall in Hu. now apply Hu.
Qed.

Lemma rglob_shape (root : Path) (fs : list node) (e : entry) :
  In e (rglob root fs) ->
  exists rel : list string, rel <> [] /\ fst e = joinpath root rel.
Proof.
  unfold rglob. intros Hin. apply in_map_iff in Hin.
  destruct Hin as ([rel d] & <- & Hin). exists rel. split; [|reflexivity].
  apply in_flat_map in Hin. destruct Hin as (t & _ & Hin).
  apply walk_shape in Hin. destruct Hin as [rest ->]. simpl. discriminate.
Qed.

Lemma joinpath_inj (root : Path) (a b : list string) :
  joinpath root a = joinpath root b -> a = b.
Proof. unfold joinpath. intros [= E]. now apply app_inv_head in E. Qed.

Lemma rglob_nodup (root : Path) (fs : list node) :
  unique_forest fs = true -> NoDup (map fst (rglob root fs)).
Proof.
  unfold unique_forest, rglob. rewrite andb_true_iff. intros [Hd Hu].
  rewrite map_map. cbn [fst].
  assert (Hnd : NoDup (map fst (flat_map (walk []) fs))).
  { apply forest_nodup; [exact Hd|]. apply Forall_forall. intros c Hc.
    apply walk_nodup. rewrite forallb_forall in Hu. now apply Hu. }
  revert Hnd. generalize (flat_map (walk []) fs). intros l.
  induction l as [|x l IH]; simpl; intros Hnd; [constructor|].
  inversion Hnd as [|? ? Hnotin Hnd']; subst.
  constructor; [|now apply IH].
  intros Hin. apply Hnotin. apply in_map_iff in Hin.
  destruct Hin as (y & E & Hy). apply joinpath_inj in E. rewrite <- E.
  now apply in_map.
Qed.

End TreeFacts.

(** * What [scan_directory] writes *)

Section Output.

Variable start_path : string.
Variable pats : list string.
Variable use_emoji : bool.

Lemma shown_joinpath (rel : list string) (d : bool) :
  should_ignore start_path pats (joinpath (of_str start_path) rel)
  = Some (negb (shown start_path pats (joinpath (of_str start_path) rel, d))).
Proof.
  unfold shown. cbn [fst].
  destruct (should_ignore_total start_path pats (joinpath (of_str start_path) rel))
    as [[|] ->]; reflexivity.
Qed.

Lemma write_entry_spec (f : string) (e : entry) :
  (exists rel, rel <> [] /\ fst e = joinpath (of_str start_path) rel) ->
  write_entry start_path pats (marker_of use_emoji true) (marker_of use_emoji false) f e
  = Some (if shown start_path pats e then (f ++ line_of start_path use_emoji e)%string
          else f).
Proof.
  intros (rel & Hne & E). destruct e as [p d]. simpl in E. subst p.
  unfold write_entry. cbn [fst snd].
  rewrite (shown_joinpath rel d). cbn [bind].
  destruct (shown start_path pats _); cbn [negb]; [|reflexivity].
  rewrite relative_to_joinpath. cbn [bind].
  unfold line_of, depth_below. cbn [fst snd].
  rewrite below_joinpath, name_joinpath, repeat_spaces by exact Hne.
  now destruct d.
Qed.

Lemma write_entries_spec (l : list entry) :
  Forall (fun e => exists rel, rel <> [] /\ fst e = joinpath (of_str start_path) rel) l ->
  forall f : string,
    write_entries start_path pats (marker_of use_emoji true) (marker_of use_emoji false) f l
    = Some (f ++ lines (map (line_of start_path use_emoji)
                          (filter (shown start_path pats) l)))%string.
Proof.
  induction 1 as [|e l He Hall IH]; intros f; simpl.
  - now rewrite str_app_nil_r.
  - rewrite (write_entry_spec f e He). cbn [bind]. rewrite IH.
    destruct (shown start_path pats e); [|reflexivity].
    simpl. now rewrite str_app_assoc.
Qed.

End Output.

Lemma scan_directory_spec (start_path : string) (fs : list node)
    (pats : list string) (use_emoji : bool) :
  scan_directory start_path fs (Some pats) use_emoji
  = Some (header start_path
          ++ lines (map (line_of start_path use_emoji) (emitted start_path pats fs)))%string.
Proof.
  unfold scan_directory, emitted, header.
  replace (if use_emoji then "📁 " else "[DIR] ") with (marker_of use_emoji true)
    by now destruct use_emoji.
  replace (if use_emoji then "📄 " else "[FILE] ") with (marker_of use_emoji false)
    by now destruct use_emoji.
  rewrite write_entries_spec.
  - rewrite repeat_equals. f_equal. cbn [String.append].
    rewrite !str_app_assoc. reflexivity.
  - apply Forall_forall. intros e He.
    apply (Permutation_in _ (sorted_perm _ _)) in He.
    now apply rglob_shape in He.
Qed.


(** The entries of a concrete tree are handled on their components below the
    root. *)
Lemma emitted_rel (start_path : string) (pats : list string) (fs : list node) :
  emitted start_path pats fs
  = filter (shown start_path pats)
      (map (fun e => (joinpath (of_str start_path) (fst e), snd e))
         (sorted rel_ltb (flat_map (walk []) fs))).
Proof. unfold emitted. now rewrite sorted_rglob. Qed.

Lemma shown_rel (start_path : string) (pats rel : list string) (d : bool) :
  rel <> [] ->
  shown start_path pats (joinpath (of_str start_path) rel, d)
  = negb (if is_library (last rel "") then Nat.ltb 1 (length rel)
          else if existsb is_library rel then true
          else if kept_config rel then false
          else existsb (pattern_hits (str (joinpath (of_str start_path) rel))) pats).
Proof.
  intros Hne. unfold shown. cbn [fst].
  rewrite should_ignore_joinpath by exact Hne.
  now destruct (if is_library (last rel "") then _ else _).
Qed.

Lemma line_of_joinpath (start_path : string) (use_emoji : bool)
    (rel : list string) (d : bool) :
  rel <> [] ->
  line_of start_path use_emoji (joinpath (of_str start_path) rel, d)
  = (spaces (4 * (length rel - 1)) ++ marker_of use_emoji d ++ last rel "" ++ nl)%string.
Proof.
  intros Hne. unfold line_of, depth_below. cbn [fst snd].
  now rewrite below_joinpath, name_joinpath.
Qed.





(** * The claims *)

(** C1: an entry below the scan root whose lowercased name is one of
    [library_folders] is classified by its depth alone: shown at depth 1 and
    hidden at any greater depth, whatever the ignore patterns and whatever
    its ancestors are. *)
Theorem C1_opaque_name_by_depth :
  forall (start_path : string) (pats rel : list string),
    rel <> [] ->
    In (lower (name (joinpath (of_str start_path) rel))) library_folders ->
    (length rel = 1 ->
     should_ignore start_path pats (joinpath (of_str start_path) rel) = Some false)
    /\ (1 < length rel ->
        should_ignore start_path pats (joinpath (of_str start_path) rel) = Some true).
Proof.
  intros start_path pats rel Hne Hin.
  rewrite name_joinpath in Hin by exact Hne. apply mem_spec in Hin.
  rewrite should_ignore_joinpath by exact Hne.
  unfold is_library. rewrite Hin. split; intros H.
  - now rewrite H.
  - apply Nat.ltb_lt in H. now rewrite H.
Qed.

Lemma C1_witness :
  should_ignore "/srv/app" ["*.log"] (joinpath (of_str "/srv/app") ["Build"]) = Some false
  /\ should_ignore "/srv/app" ["*.log"] (joinpath (of_str "/srv/app") ["src"; "Build"])
     = Some true.
Proof.
  split.
  - apply (C1_opaque_name_by_depth "/srv/app" ["*.log"] ["Build"]);
      [discriminate | apply mem_spec; reflexivity | reflexivity].
  - apply (C1_opaque_name_by_depth "/srv/app" ["*.log"] ["src"; "Build"]);
      [discriminate | apply mem_spec; reflexivity | simpl; lia].
Defined.

(** C2: an entry with a strict ancestor below the scan root whose lowercased
    name is one of [library_folders] is hidden, at any depth and whatever the
    patterns and the names are; for a root that holds
    node_modules/react/index.js the output has the line of node_modules and no
    other. *)
Theorem C2_inside_opaque_hidden :
  (forall (start_path : string) (pats above : list string) (a : string)
          (between : list string) (n : string),
      In (lower a) library_folders ->
      should_ignore start_path pats
        (joinpath (of_str start_path) (above ++ a :: between ++ [n])) = Some true)
  /\ (forall (start_path : string) (pats : list string) (use_emoji : bool),
         scan_directory start_path
           [Dir "node_modules" [Dir "react" [File "index.js"]]] (Some pats) use_emoji
         = Some (header start_path
                 ++ marker_of use_emoji true ++ "node_modules" ++ nl)%string).
Proof.
  split.
  - intros start_path pats above a between n Hin. apply mem_spec in Hin.
    rewrite should_ignore_joinpath by (now destruct above).
    destruct (is_library _).
    + f_equal. apply Nat.ltb_lt. rewrite length_app. simpl.
      rewrite length_app. simpl. lia.
    + rewrite existsb_app. cbn [existsb]. unfold is_library at 2.
      rewrite Hin. now rewrite orb_true_r.
  - intros start_path pats use_emoji.
    rewrite scan_directory_spec, emitted_rel.
    change (sorted rel_ltb (flat_map (walk []) [Dir "node_modules" [Dir "react" [File "index.js"]]]))
      with [(["node_modules"], true); (["node_modules"; "react"], true);
            (["node_modules"; "react"; "index.js"], false)].
    cbn [map filter fst snd]. rewrite !shown_rel by discriminate.
    change (is_library (last ["node_modules"] "")) with true.
    change (is_library (last ["node_modules"; "react"] "")) with false.
    change (is_library (last ["node_modules"; "react"; "index.js"] "")) with false.
    change (existsb is_library ["node_modules"; "react"]) with true.
    change (existsb is_library ["node_modules"; "react"; "index.js"]) with true.
    cbn [length Nat.ltb Nat.leb negb map lines fold_right].
    rewrite line_of_joinpath by discriminate.
    cbn [length Nat.sub Nat.mul spaces last String.append].
    now rewrite str_app_nil_r.
Qed.

Lemma C2_witness :
  should_ignore "." DEFAULT_IGNORE_PATTERNS
    (joinpath (of_str ".") (["web"] ++ "Node_Modules" :: ["react"] ++ ["package.json"]))
  = Some true.
Proof.
  apply (proj1 C2_inside_opaque_hidden "." DEFAULT_IGNORE_PATTERNS
           ["web"] "Node_Modules" ["react"] "package.json").
  apply mem_spec. reflexivity.
Defined.

(** C3: a depth-1 entry whose lowercased name is a preserved configuration
    name, or starts with "config.", or ends with ".config.js" or
    ".config.ts", or starts with ".env", is shown whatever the ignore
    patterns are; a root-level .env.production gets its line. *)
Theorem C3_root_config_kept :
  (forall (start_path : string) (pats : list string) (n : string),
      In (lower n) important_config_files
      \/ is_prefix "config." (lower n)
      \/ is_suffix ".config.js" (lower n)
      \/ is_suffix ".config.ts" (lower n)
      \/ is_prefix ".env" (lower n) ->
      should_ignore start_path pats (joinpath (of_str start_path) [n]) = Some false)
  /\ (forall (start_path : string) (pats : list string) (use_emoji : bool),
         scan_directory start_path [File ".env.production"] (Some pats) use_emoji
         = Some (header start_path
                 ++ marker_of use_emoji false ++ ".env.production" ++ nl)%string).
Proof.
  assert (G : forall (start_path : string) (pats : list string) (n : string),
             In (lower n) important_config_files
             \/ is_prefix "config." (lower n)
             \/ is_suffix ".config.js" (lower n)
             \/ is_suffix ".config.ts" (lower n)
             \/ is_prefix ".env" (lower n) ->
             should_ignore start_path pats (joinpath (of_str start_path) [n]) = Some false).
  { intros start_path pats n H.
    rewrite should_ignore_joinpath by discriminate.
    cbn [last length existsb Nat.ltb Nat.leb].
    destruct (is_library n); [reflexivity|]. cbn [orb].
    replace (kept_config [n]) with true; [reflexivity|].
    symmetry. unfold kept_config, keep_root_config, keep_root_pattern, startswith.
    cbn [last length Nat.eqb andb].
    rewrite !orb_true_iff, mem_spec, !prefix_spec, !endswith_spec.
    unfold is_prefix in H. tauto. }
  split; [exact G|].
  intros start_path pats use_emoji.
  rewrite scan_directory_spec, emitted_rel.
  change (sorted rel_ltb (flat_map (walk []) [File ".env.production"]))
    with [([".env.production"], false)].
  cbn [map filter fst snd]. unfold shown. cbn [fst].
  rewrite G by (left; apply mem_spec; reflexivity).
  cbn [map lines fold_right]. rewrite line_of_joinpath by discriminate.
  cbn [length Nat.sub Nat.mul spaces last String.append].
  now rewrite str_app_nil_r.
Qed.

Lemma C3_witness :
  existsb (pattern_hits (str (joinpath (of_str ".") ["Config.log"])))
    DEFAULT_IGNORE_PATTERNS = true
  /\ should_ignore "." DEFAULT_IGNORE_PATTERNS (joinpath (of_str ".") ["Config.log"])
     = Some false.
Proof.
  split; [reflexivity|].
  apply (proj1 C3_root_config_kept "." DEFAULT_IGNORE_PATTERNS "Config.log").
  right; left. exists "log". reflexivity.
Defined.






(** C6 as stated fails: paths are sorted component by component, not as
    strings.  Below the root ".", the file src/main.py is written before the
    file src.txt, although "src.txt" is below "src/main.py" in the order of
    strings ("." comes before "/"). *)
Lemma C6_counterexample :
  map (fun e => str (fst e))
    (emitted "." DEFAULT_IGNORE_PATTERNS [Dir "src" [File "main.py"]; File "src.txt"])
  = ["src"; "src/main.py"; "src.txt"]
  /\ str_lt "src.txt" "src/main.py"
  /\ ~ Sorted str_lt
         (map (fun e => str (fst e))
            (emitted "." DEFAULT_IGNORE_PATTERNS
               [Dir "src" [File "main.py"]; File "src.txt"]))
  /\ scan_directory "." [Dir "src" [File "main.py"]; File "src.txt"] None false
     = Some (header "." ++ "[DIR] src" ++ nl ++ "    [FILE] main.py" ++ nl
             ++ "[FILE] src.txt" ++ nl)%string.
Proof.
  split; [vm_compute; reflexivity|]. split; [vm_compute; reflexivity|].
  split; [|vm_compute; reflexivity].
  change (map (fun e => str (fst e))
            (emitted "." DEFAULT_IGNORE_PATTERNS
               [Dir "src" [File "main.py"]; File "src.txt"]))
    with ["src"; "src/main.py"; "src.txt"].
  intros H. inversion H as [|? ? H1 _]; subst.
  inversion H1 as [|? ? _ H2]; subst.
  inversion H2 as [|? ? H3]; subst.
  vm_compute in H3. discriminate H3.
Qed.

(** C6, amended: the lines follow the entries in the strict lexicographic
    order of their sequences of components below the root (each component
    compared as a string), and the line of a directory stands before the
    line of every entry below it that gets one. *)
Theorem C6_component_order :
  forall (start_path : string) (pats : list string) (fs : list node) (use_emoji : bool),
    unique_forest fs = true ->
    scan_directory start_path fs (Some pats) use_emoji
    = Some (header start_path
            ++ lines (map (line_of start_path use_emoji) (emitted start_path pats fs)))%string
    /\ StronglySorted parts_lt
         (map (fun e => below (of_str start_path) (fst e)) (emitted start_path pats fs))
    /\ (forall d e : entry,
           In d (emitted start_path pats fs) ->
           In e (emitted start_path pats fs) ->
           (exists (x : string) (r : list string),
               below (of_str start_path) (fst e)
               = below (of_str start_path) (fst d) ++ x :: r) ->
           precedes d e (emitted start_path pats fs)).
Proof.
  intros start_path pats fs use_emoji Hu.
  assert (Hshape : forall e, In e (emitted start_path pats fs) ->
                     exists rel, fst e = joinpath (of_str start_path) rel).
  { intros e He. apply filter_In in He. destruct He as [He _].
    apply (Permutation_in _ (sorted_perm _ _)) in He.
    apply rglob_shape in He. destruct He as (rel & _ & E). now exists rel. }
  assert (Hs : StronglySorted entry_le (emitted start_path pats fs))
    by apply filter_sorted, sorted_sorted.
  split; [apply scan_directory_spec|]. split.
  - apply (sorted_strict entry_le parts_lt fst); [exact Hs | |].
    + apply filter_map_nodup.
      apply (Permutation_NoDup (Permutation_map fst (Permutation_sym (sorted_perm _ _)))).
      now apply rglob_nodup.
    + intros x y Hx Hy Hle Hne.
      destruct (Hshape x Hx) as [a Ea]. destruct (Hshape y Hy) as [b Eb].
      unfold entry_le, entry_ltb in Hle. rewrite Ea, Eb in *.
      rewrite ltb_joinpath in Hle. rewrite !below_joinpath.
      destruct (parts_ltb_trichotomy _ _ Hle) as [Hlt | ->]; [exact Hlt | congruence].
  - intros d e Hd He (x & r & E).
    destruct (Hshape d Hd) as [a Ea]. destruct (Hshape e He) as [b Eb].
    rewrite Ea, Eb, !below_joinpath in E. subst b.
    assert (Hlt : entry_ltb d e = true).
    { unfold entry_ltb. rewrite Ea, Eb, ltb_joinpath. apply parts_ltb_prefix. }
    apply (sorted_precedes entry_le); [exact Hs | exact Hd | exact He | |].
    + unfold entry_le. now rewrite Hlt.
    + intros ->. unfold entry_ltb, PurePath.ltb in Hlt.
      rewrite parts_ltb_irrefl in Hlt. discriminate Hlt.
Qed.

Lemma C6_witness :
  StronglySorted parts_lt
    (map (fun e => below (of_str ".") (fst e))
       (emitted "." DEFAULT_IGNORE_PATTERNS [Dir "src" [File "main.py"]; File "src.txt"]))
  /\ precedes (joinpath (of_str ".") ["src"], true)
       (joinpath (of_str ".") ["src"; "main.py"], false)
       (emitted "." DEFAULT_IGNORE_PATTERNS [Dir "src" [File "main.py"]; File "src.txt"]).
Proof.
  pose proof (C6_component_order "." DEFAULT_IGNORE_PATTERNS
                [Dir "src" [File "main.py"]; File "src.txt"] false eq_refl)
    as (_ & Hsorted & Hbefore).
  split; [exact Hsorted|].
  apply Hbefore.
  - vm_compute. left. reflexivity.
  - vm_compute. right. left. reflexivity.
  - exists "main.py", []. reflexivity.
Defined.

(** C7 as stated fails: the patterns are matched against the whole path
    string, which begins with the text of the scan root.  The depth-1 file
    readme.md is shown below the root "." and hidden below the root
    /tmp/proj, whose text contains the default pattern "tmp/". *)
Lemma C7_counterexample :
  should_ignore "." DEFAULT_IGNORE_PATTERNS (joinpath (of_str ".") ["readme.md"])
  = Some false
  /\ should_ignore "/tmp/proj" DEFAULT_IGNORE_PATTERNS
       (joinpath (of_str "/tmp/proj") ["readme.md"])
     = Some true
  /\ ~ (forall (s1 s2 : string) (pats rel : list string),
           rel <> [] ->
           should_ignore s1 pats (joinpath (of_str s1) rel)
           = should_ignore s2 pats (joinpath (of_str s2) rel)).
Proof.
  split; [vm_compute; reflexivity|]. split; [vm_compute; reflexivity|].
  intros H.
  assert (Hne : ["readme.md"] <> []) by discriminate.
  specialize (H "." "/tmp/proj" DEFAULT_IGNORE_PATTERNS ["readme.md"] Hne).
  vm_compute in H. discriminate H.
Qed.

(** C7, amended: the classification of an entry is a function of the names
    of its components below the scan root and of whether some ignore pattern
    hits its whole path string, root text included.  Two entries with the same
    components below their roots get the same answer whenever the patterns
    hit both path strings or neither; and an entry that a rule on names
    decides gets the same answer below every root and with every pattern
    list. *)
Theorem C7_classification_inputs :
  (forall (s1 s2 : string) (pats rel : list string),
      rel <> [] ->
      ((exists p, In p pats /\ hits p (str (joinpath (of_str s1) rel)))
       <-> (exists p, In p pats /\ hits p (str (joinpath (of_str s2) rel)))) ->
      should_ignore s1 pats (joinpath (of_str s1) rel)
      = should_ignore s2 pats (joinpath (of_str s2) rel))
  /\ (forall (s1 s2 : string) (pats1 pats2 rel : list string),
         rel <> [] ->
         shown_by_name rel = true \/ hidden_by_name rel = true ->
         should_ignore s1 pats1 (joinpath (of_str s1) rel)
         = should_ignore s2 pats2 (joinpath (of_str s2) rel)).
Proof.
  split.
  - intros s1 s2 pats rel Hne Hiff.
    rewrite !should_ignore_joinpath by exact Hne.
    rewrite <- !existsb_hits in Hiff.
    assert (E : existsb (pattern_hits (str (joinpath (of_str s1) rel))) pats
                = existsb (pattern_hits (str (joinpath (of_str s2) rel))) pats).
    { destruct (existsb (pattern_hits (str (joinpath (of_str s1) rel))) pats),
               (existsb (pattern_hits (str (joinpath (of_str s2) rel))) pats);
        intuition congruence. }
    now rewrite E.
  - intros s1 s2 pats1 pats2 rel Hne H.
    rewrite !should_ignore_joinpath by exact Hne.
    unfold shown_by_name, hidden_by_name in H.
    destruct (is_library (last rel "")); [reflexivity|].
    destruct (existsb is_library rel); [reflexivity|].
    destruct (kept_config rel); [reflexivity|].
    simpl in H. destruct H; discriminate.
Qed.

Lemma C7_witness :
  should_ignore "." ["*.log"; "tmp/"] (joinpath (of_str ".") ["var"; "debug.log"])
  = should_ignore "/tmp/proj" ["*.log"; "tmp/"]
      (joinpath (of_str "/tmp/proj") ["var"; "debug.log"])
  /\ should_ignore "." [] (joinpath (of_str ".") ["node_modules"; "react"])
     = should_ignore "/tmp/proj" DEFAULT_IGNORE_PATTERNS
         (joinpath (of_str "/tmp/proj") ["node_modules"; "react"]).
Proof.
  split.
  - apply (proj1 C7_classification_inputs "." "/tmp/proj" ["*.log"; "tmp/"]
             ["var"; "debug.log"]); [discriminate|].
    split; intros _; exists "*.log"; (split; [now left|]);
      apply pattern_hits_spec; reflexivity.
  - apply (proj2 C7_classification_inputs "." "/tmp/proj" [] DEFAULT_IGNORE_PATTERNS
             ["node_modules"; "react"]); [discriminate|].
    right. reflexivity.
Defined.






Lemma lower_last (l : list string) : lower (last l "") = last (map lower l) "".
Proof.
  induction l as [|x l IH]; [reflexivity|].
  destruct l as [|y l]; [reflexivity|]. exact IH.
Qed.

Lemma map_removelast {A B : Type} (f : A -> B) (l : list A) :
  map f (removelast l) = removelast (map f l).
Proof.
  induction l as [|x l IH]; [reflexivity|].
  destruct l as [|y l]; [reflexivity|]. simpl in *. now rewrite IH.
Qed.

Lemma existsb_is_library (l : list string) :
  existsb is_library l = existsb (fun n => mem n library_folders) (map lower l).
Proof. induction l as [|x l IH]; simpl; [reflexivity | now rewrite IH]. Qed.

(** C10: the rules on names compare lowercased names, so they do not see
    letter case: two entries whose components below the root agree after
    lowercasing get the same answer whenever the patterns hit both path strings
    or neither.  The patterns are matched against the path string as it is:
    patterns that hit the path string in none of the three ways leave the
    answer as it is with no pattern at all, also when they would hit after
    lowercasing both. *)
Theorem C10_case_handling :
  (forall (start_path : string) (pats rel1 rel2 : list string),
      map lower rel1 = map lower rel2 ->
      rel1 <> [] ->
      ((exists p, In p pats /\ hits p (str (joinpath (of_str start_path) rel1)))
       <-> (exists p, In p pats /\ hits p (str (joinpath (of_str start_path) rel2)))) ->
      should_ignore start_path pats (joinpath (of_str start_path) rel1)
      = should_ignore start_path pats (joinpath (of_str start_path) rel2))
  /\ (forall (start_path : string) (pats rel : list string),
         rel <> [] ->
         (forall p, In p pats -> ~ hits p (str (joinpath (of_str start_path) rel))) ->
         should_ignore start_path pats (joinpath (of_str start_path) rel)
         = should_ignore start_path [] (joinpath (of_str start_path) rel)).
Proof.
  split.
  - intros start_path pats rel1 rel2 H Hne1 Hiff.
    assert (Hne2 : rel2 <> []) by (intros ->; now destruct rel1).
    assert (E1 : lower (last rel1 "") = lower (last rel2 ""))
      by now rewrite !lower_last, H.
    assert (E2 : length rel1 = length rel2)
      by (rewrite <- (length_map lower rel1), H; apply length_map).
    assert (E3 : existsb is_library rel1 = existsb is_library rel2)
      by now rewrite !existsb_is_library, H.
    assert (E4 : lower (parent_name rel1) = lower (parent_name rel2))
      by (unfold parent_name; now rewrite !lower_last, !map_removelast, H).
    rewrite <- !existsb_hits in Hiff.
    assert (E5 : existsb (pattern_hits (str (joinpath (of_str start_path) rel1))) pats
                 = existsb (pattern_hits (str (joinpath (of_str start_path) rel2))) pats).
    { destruct (existsb (pattern_hits (str (joinpath (of_str start_path) rel1))) pats),
               (existsb (pattern_hits (str (joinpath (of_str start_path) rel2))) pats);
        intuition congruence. }
    rewrite !should_ignore_joinpath by assumption.
    rewrite E3, E5. unfold is_library, kept_config. now rewrite E1, E2, E4.
  - intros start_path pats rel Hne Hno.
    rewrite !should_ignore_joinpath by exact Hne.
    replace (existsb (pattern_hits (str (joinpath (of_str start_path) rel))) pats)
      with false; [reflexivity|].
    symmetry. apply not_true_is_false. intros H. apply existsb_hits in H.
    destruct H as (p & Hin & Hp). exact (Hno p Hin Hp).
Qed.

Lemma C10_witness :
  (should_ignore "." ["*.js"] (joinpath (of_str ".") ["Web"; "Vite.Config.js"])
   = should_ignore "." ["*.js"] (joinpath (of_str ".") ["web"; "vite.config.js"]))
  /\ (should_ignore "." [] (joinpath (of_str ".") ["SRC"; "Node_Modules"])
      = should_ignore "." [] (joinpath (of_str ".") ["src"; "node_modules"]))
  /\ hits (lower "*.LOG") (lower (str (joinpath (of_str ".") ["debug.log"])))
  /\ should_ignore "." ["*.LOG"] (joinpath (of_str ".") ["debug.log"])
     = should_ignore "." [] (joinpath (of_str ".") ["debug.log"]).
Proof.
  split; [|split; [|split]].
  - apply (proj1 C10_case_handling "." ["*.js"] ["Web"; "Vite.Config.js"]
             ["web"; "vite.config.js"]); [reflexivity | discriminate |].
    split; intros _; exists "*.js"; (split; [now left|]);
      apply pattern_hits_spec; reflexivity.
  - apply (proj1 C10_case_handling "." [] ["SRC"; "Node_Modules"]
             ["src"; "node_modules"]); [reflexivity | discriminate |].
    split; intros (p & [] & _).
  - apply pattern_hits_spec. reflexivity.
  - apply (proj2 C10_case_handling "." ["*.LOG"] ["debug.log"]); [discriminate|].
    intros p [<- | []] H. apply pattern_hits_spec in H. discriminate H.
Defined.

(** * Further facts: sorting in general *)

Section SortedGeneric.

Context {A : Type} (lt : A -> A -> bool).

Hypothesis lt_asym : forall a b, lt a b = true -> lt b a = false.
Hypothesis ge_trans : forall a b c, lt b a = false -> lt c b = false -> lt c a = false.

Lemma insert_sorted_gen (x : A) (l : list A) :
  StronglySorted (fun a b => lt b a = false) l ->
  StronglySorted (fun a b => lt b a = false) (insert_sorted lt x l).
Proof.
  induction 1 as [|y l Hs IH Hall]; simpl.
  - constructor; constructor.
  - destruct (lt y x) eqn:E.
    + constructor; [exact IH|].
      apply Forall_forall. intros z Hz.
      apply (Permutation_in _ (insert_sorted_perm lt x l)) in Hz.
      destruct Hz as [<- | Hz]; [now apply lt_asym|].
      rewrite Forall_forall in Hall. now apply Hall.
    + constructor; [constructor; assumption|].
      constructor; [exact E|].
      apply Forall_forall. intros z Hz. rewrite Forall_forall in Hall.
      apply (ge_trans _ y); [exact E | now apply Hall].
Qed.

Lemma sorted_gen (l : list A) : StronglySorted (fun a b => lt b a = false) (sorted lt l).
Proof.
  induction l as [|x l IH]; simpl; [constructor|].
  now apply insert_sorted_gen.
Qed.

End SortedGeneric.

(** Two sorted arrangements of the same elements are the same list. *)
Lemma sorted_perm_eq {A : Type} (R : A -> A -> Prop) (l1 l2 : list A) :
  StronglySorted R l1 ->
  StronglySorted R l2 ->
  Permutation l1 l2 ->
  (forall x y, In x l1 -> In y l1 -> R x y -> R y x -> x = y) ->
  l1 = l2.
Proof.
  intros H1. revert l2. induction H1 as [|x l1 Hs1 IH Hall1]; intros l2 H2 Hp Hanti.
  - apply Permutation_nil in Hp. now subst.
  - destruct l2 as [|y l2]; [apply Permutation_sym, Permutation_nil in Hp; discriminate|].
    apply StronglySorted_inv in H2. destruct H2 as [Hs2 Hall2].
    rewrite Forall_forall in Hall1, Hall2.
    assert (Hy : In y (x :: l1))
      by (apply (Permutation_in _ (Permutation_sym Hp)); now left).
    assert (Hx : In x (y :: l2)) by (apply (Permutation_in _ Hp); now left).
    assert (E : x = y).
    { destruct Hy as [E | Hy]; [exact E|]. destruct Hx as [E | Hx]; [now symmetry|].
      apply Hanti; [now left | now right | now apply Hall1 | now apply Hall2]. }
    subst y. f_equal. apply IH; [exact Hs2 | now apply Permutation_cons_inv in Hp |].
    intros a b Ha Hb. apply Hanti; now right.
Qed.

Lemma nodup_key_inj {A B : Type} (f : A -> B) (l : list A) (a b : A) :
  NoDup (map f l) -> In a l -> In b l -> f a = f b -> a = b.
Proof.
  induction l as [|x l IH]; simpl; intros Hnd Ha Hb E; [contradiction|].
  inversion Hnd as [|? ? Hnotin Hnd']; subst.
  destruct Ha as [-> | Ha], Hb as [-> | Hb]; trivial.
  - exfalso. apply Hnotin. rewrite E. now apply in_map.
  - exfalso. apply Hnotin. rewrite <- E. now apply in_map.
  - now apply IH.
Qed.





(** * Further properties of the code *)









(** X3: a path that does not extend the scan root is ignored, whatever its
    name (a preserved configuration name, a depth-1 library folder name) and
    whatever the patterns are: the [ValueError] of [relative_to] is caught
    and answered with [True]. *)
Theorem X3_outside_root_ignored :
  forall (start_path : string) (pats : list string) (p : Path),
    (forall rel : list string, p <> joinpath (of_str start_path) rel) ->
    should_ignore start_path pats p = Some true.
Proof.
  intros start_path pats p Hout. unfold should_ignore.
  destruct (relative_to p (of_str start_path)) as [rel|] eqn:E; [|reflexivity].
  apply relative_to_Some in E. now apply Hout in E.
Qed.

Lemma X3_witness :
  should_ignore "/srv/app" [] (of_str "/srv/other/package.json") = Some true.
Proof.
  apply (X3_outside_root_ignored "/srv/app" [] (of_str "/srv/other/package.json")).
  intros rel H. vm_compute in H. discriminate H.
Defined.

Lemma existsb_same_elements {A : Type} (f : A -> bool) (l l' : list A) :
  (forall x, In x l <-> In x l') -> existsb f l = existsb f l'.
Proof.
  intros H. destruct (existsb f l) eqn:E, (existsb f l') eqn:E'; trivial.
  - apply existsb_exists in E. destruct E as (x & Hx & Hf).
    rewrite <- E'. symmetry. apply existsb_exists. exists x. split; [now apply H | exact Hf].
  - apply existsb_exists in E'. destruct E' as (x & Hx & Hf).
    rewrite <- E. apply existsb_exists. exists x. split; [now apply H | exact Hf].
Qed.

Lemma should_ignore_same_hits (start_path : string) (pats pats' : list string) (p : Path) :
  existsb (pattern_hits (str p)) pats = existsb (pattern_hits (str p)) pats' ->
  should_ignore start_path pats p = should_ignore start_path pats' p.
Proof. intros H. unfold should_ignore. now rewrite H. Qed.


(** X4: the ignore patterns act as a set.  Two pattern lists with the same
    elements, in any order and with any repetitions, classify every path
    alike and give the same output. *)
Theorem X4_patterns_as_set :
  forall (start_path : string) (pats pats' : list string),
    (forall x, In x pats <-> In x pats') ->
    (forall p : Path, should_ignore start_path pats p = should_ignore start_path pats' p)
    /\ (forall (fs : list node) (use_emoji : bool),
           scan_directory start_path fs (Some pats) use_emoji
           = scan_directory start_path fs (Some pats') use_emoji).
Proof.
  intros start_path pats pats' Hsame.
  assert (G : forall p : Path,
             should_ignore start_path pats p = should_ignore start_path pats' p).
  { intros p. apply should_ignore_same_hits. now apply existsb_same_elements. }
  split; [exact G|].
  intros fs use_emoji. rewrite !scan_directory_spec. do 4 f_equal.
  unfold emitted. apply filter_ext. intros e. unfold shown. now rewrite G.
Qed.

Lemma X4_witness :
  scan_directory "." [File "a.tmp"; File "b.bak"; File "c.txt"]
    (Some ["*.tmp"; "*.bak"; "*.tmp"]) false
  = scan_directory "." [File "a.tmp"; File "b.bak"; File "c.txt"]
      (Some ["*.bak"; "*.tmp"]) false.
Proof.
  apply (X4_patterns_as_set "." ["*.tmp"; "*.bak"; "*.tmp"] ["*.bak"; "*.tmp"]).
  intros x. simpl. tauto.
Defined.










Lemma walk_forest_nodup (fs : list node) :
  unique_forest fs = true -> NoDup (map fst (flat_map (walk []) fs)).
Proof.
  unfold unique_forest. rewrite andb_true_iff. intros [Hd Hu].
  apply forest_nodup; [exact Hd|]. apply Forall_forall. intros c Hc.
  apply walk_nodup. rewrite forallb_forall in Hu. now apply Hu.
Qed.

Lemma rel_ltb_asym (a b : list string * bool) : rel_ltb a b = true -> rel_ltb b a = false.
Proof. unfold rel_ltb. apply parts_ltb_asym. Qed.

Lemma rel_geb_trans (a b c : list string * bool) :
  rel_ltb b a = false -> rel_ltb c b = false -> rel_ltb c a = false.
Proof. unfold rel_ltb. apply parts_geb_trans. Qed.

(** The sorted enumeration does not depend on the order of the enumeration. *)
Lemma sorted_rel_perm (l l' : list (list string * bool)) :
  NoDup (map fst l) -> Permutation l l' -> sorted rel_ltb l = sorted rel_ltb l'.
Proof.
  intros Hnd Hp.
  apply (sorted_perm_eq (fun a b => rel_ltb b a = false)).
  - apply sorted_gen; [apply rel_ltb_asym | apply rel_geb_trans].
  - apply sorted_gen; [apply rel_ltb_asym | apply rel_geb_trans].
  - eapply perm_trans; [apply sorted_perm|].
    eapply perm_trans; [exact Hp | apply Permutation_sym, sorted_perm].
  - intros x y Hx Hy Hxy Hyx.
    apply (Permutation_in _ (sorted_perm rel_ltb l)) in Hx, Hy.
    apply (nodup_key_inj fst l); try assumption.
    unfold rel_ltb in *.
    destruct (parts_ltb_trichotomy _ _ Hyx) as [H | H]; [congruence | exact H].
Qed.

(** X8: the output does not depend on the order in which the directories
    list their entries: two enumerations of the same entries, siblings having
    distinct names, give the same text. *)
Theorem X8_listing_order_irrelevant :
  forall (start_path : string) (pats : list string) (use_emoji : bool)
         (fs fs' : list node),
    unique_forest fs = true ->
    Permutation (flat_map (walk []) fs) (flat_map (walk []) fs') ->
    scan_directory start_path fs (Some pats) use_emoji
    = scan_directory start_path fs' (Some pats) use_emoji.
Proof.
  intros start_path pats use_emoji fs fs' Hu Hp.
  rewrite !scan_directory_spec, !emitted_rel.
  rewrite (sorted_rel_perm _ _ (walk_forest_nodup fs Hu) Hp). reflexivity.
Qed.

Lemma X8_witness :
  scan_directory "." [File "b.txt"; File "a.txt"] (Some DEFAULT_IGNORE_PATTERNS) false
  = scan_directory "." [File "a.txt"; File "b.txt"] (Some DEFAULT_IGNORE_PATTERNS) false.
Proof.
  apply (X8_listing_order_irrelevant "." DEFAULT_IGNORE_PATTERNS false
           [File "b.txt"; File "a.txt"] [File "a.txt"; File "b.txt"]).
  - reflexivity.
  - apply perm_swap.
Defined.

(** X9: the text given as the scan root appears in the first line as it was
    typed, and nowhere else: two texts that denote the same path ("proj",
    "./proj/") give outputs that differ in the first line only. *)
Theorem X9_root_text_in_header_only :
  forall (s1 s2 : string) (fs : list node) (pats : list string) (use_emoji : bool),
    of_str s1 = of_str s2 ->
    exists body : string,
      scan_directory s1 fs (Some pats) use_emoji = Some (header s1 ++ body)%string
      /\ scan_directory s2 fs (Some pats) use_emoji = Some (header s2 ++ body)%string.
Proof.
  intros s1 s2 fs pats use_emoji H.
  exists (lines (map (line_of s1 use_emoji) (emitted s1 pats fs))).
  split; [apply scan_directory_spec|].
  rewrite scan_directory_spec.
  assert (El : line_of s2 use_emoji = line_of s1 use_emoji)
    by (unfold line_of; now rewrite H).
  assert (Ee : emitted s2 pats fs = emitted s1 pats fs)
    by (unfold emitted, shown, should_ignore; now rewrite H).
  now rewrite El, Ee.
Qed.

Lemma X9_witness :
  exists body : string,
    scan_directory "./proj/" [Dir "src" [File "main.py"]] (Some ["*.log"]) false
    = Some (header "./proj/" ++ body)%string
    /\ scan_directory "proj" [Dir "src" [File "main.py"]] (Some ["*.log"]) false
       = Some (header "proj" ++ body)%string.
Proof.
  apply (X9_root_text_in_header_only "./proj/" "proj"). reflexivity.
Defined.







Lemma emitted_shape (start_path : string) (pats : list string) (fs : list node) (e : entry) :
  In e (emitted start_path pats fs) ->
  exists rel : list string,
    rel <> []
    /\ fst e = joinpath (of_str start_path) rel
    /\ should_ignore start_path pats (joinpath (of_str start_path) rel) = Some false.
Proof.
  intros He. apply filter_In in He. destruct He as [Hin Hs].
  apply (Permutation_in _ (sorted_perm _ _)) in Hin.
  apply rglob_shape in Hin. destruct Hin as (rel & Hne & E).
  exists rel. split; [exact Hne|]. split; [exact E|].
  unfold shown in Hs. rewrite E in Hs.
  destruct (should_ignore _ _ _) as [[|]|]; congruence.
Qed.

Lemma is_library_in (rel : list string) :
  existsb is_library rel = true
  <-> exists a, In a rel /\ In (lower a) library_folders.
Proof.
  rewrite existsb_exists. unfold is_library.
  split; intros (a & Ha & H); exists a; (split; [exact Ha|]); now apply mem_spec.
Qed.

(** X12: library folders are listed but never opened.  No entry that gets a
    line at depth 2 or more has a library folder name among its components
    below the root, its own name included, whatever the patterns are. *)
Theorem X12_nothing_listed_inside_library :
  forall (start_path : string) (pats : list string) (fs : list node) (e : entry),
    In e (emitted start_path pats fs) ->
    2 <= depth_below (of_str start_path) (fst e) ->
    forall a : string,
      In a (below (of_str start_path) (fst e)) -> ~ In (lower a) library_folders.
Proof.
  intros start_path pats fs e He Hdepth a Ha Hlib.
  destruct (emitted_shape _ _ _ _ He) as (rel & Hne & E & Hs).
  unfold depth_below in Hdepth. rewrite E, below_joinpath in *.
  rewrite should_ignore_joinpath in Hs by exact Hne.
  destruct (is_library (last rel "")).
  - apply Nat.ltb_lt in Hdepth. rewrite Hdepth in Hs. discriminate Hs.
  - assert (Hex : existsb is_library rel = true)
      by (apply is_library_in; now exists a).
    rewrite Hex in Hs. discriminate Hs.
Qed.

Lemma X12_witness :
  ~ In (lower "src") library_folders.
Proof.
  apply (X12_nothing_listed_inside_library "." DEFAULT_IGNORE_PATTERNS
           [Dir "src" [File "main.py"]; Dir "node_modules" [File "x.js"]]
           (joinpath (of_str ".") ["src"; "main.py"], false)).
  - vm_compute. right. right. left. reflexivity.
  - vm_compute. lia.
  - vm_compute. left. reflexivity.
Defined.


